(** * Verification of build_lib.py (kicad-autogen): symbol generation for
    black-box ICs.

    The development embeds the pure core of [build_lib.py]:
    - [normalise_pins], over a model of the dynamically typed values YAML
      produces ([pyval]), with Python's indexing, [len] and iteration errors;
    - [longest_num], [geometry], [fields], [draw_pins], [draw] and the
      [DEF] header of [library], over typed pins whose name and number are
      a string or an integer (the docstring's data model).

    Python integers are [Z]; [//] and [%] are [Z.div] and [Z.modulo], which
    round towards minus infinity as Python does.  Strings are [string]; one
    [ascii] stands for one character. *)

From Stdlib Require Import ZArith List String Ascii Bool Lia.
From Stdlib Require Import Numbers.DecimalString.
Import ListNotations.
Open Scope Z_scope.

(** ** Python errors and a small error monad *)

Inductive pyerr : Type :=
| IndexError
| TypeError
| ValueError
| KeyError.

Inductive res (A : Type) : Type :=
| Ok (a : A)
| Err (e : pyerr).
Arguments Ok {A} a.
Arguments Err {A} e.

Definition bind {A B : Type} (m : res A) (k : A -> res B) : res B :=
  match m with
  | Ok a => k a
  | Err e => Err e
  end.

Notation "x <- m ;; k" := (bind m (fun x => k))
  (at level 61, m at next level, right associativity).

(** A Python [for] loop that appends one result per element and stops at
    the first exception. *)
Fixpoint mapM {A B : Type} (f : A -> res B) (xs : list A) : res (list B) :=
  match xs with
  | [] => Ok []
  | x :: xs' => y <- f x ;; ys <- mapM f xs' ;; Ok (y :: ys)
  end.

(** [max(xs)] on a list of ints: [ValueError] on an empty sequence. *)
Definition py_max (xs : list Z) : res Z :=
  match xs with
  | [] => Err ValueError
  | x :: xs' => Ok (fold_left Z.max xs' x)
  end.

(** ** Python values as loaded from YAML *)

#[local] Set Warnings "-register-all".
Inductive pyval : Type :=
| PNone
| PInt (z : Z)
| PStr (s : string)
| PList (xs : list pyval).

Definition str1 (c : ascii) : string := String c EmptyString.

(** [x[i]] for a non-negative index. *)
Definition py_index (x : pyval) (i : nat) : res pyval :=
  match x with
  | PList xs =>
      match nth_error xs i with Some y => Ok y | None => Err IndexError end
  | PStr s =>
      match String.get i s with Some c => Ok (PStr (str1 c)) | None => Err IndexError end
  | _ => Err TypeError
  end.

(** [len(x)]. *)
Definition py_len (x : pyval) : res nat :=
  match x with
  | PList xs => Ok (List.length xs)
  | PStr s => Ok (String.length s)
  | _ => Err TypeError
  end.

(** [for y in x]. *)
Definition py_iter (x : pyval) : res (list pyval) :=
  match x with
  | PList xs => Ok xs
  | PStr s => Ok (map (fun c => PStr (str1 c)) (list_ascii_of_string s))
  | _ => Err TypeError
  end.

Definition is_none (x : pyval) : bool :=
  match x with PNone => true | _ => false end.

Definition is_str (x : pyval) : bool :=
  match x with PStr _ => true | _ => false end.

(** ** [normalise_pins] (build_lib.py, lines 101-132) *)

(** [unit[0][0][0]]: the empty-left marker is [None] there. *)
Definition unit_marker (unit : pyval) : res pyval :=
  a <- py_index unit 0 ;; b <- py_index a 0 ;; py_index b 0.

(** The body of the [for unit in pins] loop. *)
Definition normalise_unit (unit : pyval) : res (pyval * pyval) :=
  n <- py_len unit ;;
  if Nat.eqb n 1 then
    u0 <- py_index unit 0 ;; Ok (u0, PList [])
  else if Nat.eqb n 2 then
    m <- unit_marker unit ;;
    if is_none m then
      u1 <- py_index unit 1 ;; Ok (PList [], u1)
    else
      u0 <- py_index unit 0 ;; u1 <- py_index unit 1 ;; Ok (u0, u1)
  else Err ValueError.

(** Lines 111-118: look at the first pin (or group) and wrap a single unit
    in a list. *)
Definition wrap_pins (pins : pyval) : res pyval :=
  a <- py_index pins 0 ;; b <- py_index a 0 ;; first <- py_index b 0 ;;
  first_pin_or_grp <-
    (if is_none first then
       a1 <- py_index pins 1 ;; b1 <- py_index a1 0 ;; py_index b1 0
     else Ok first) ;;
  c <- py_index first_pin_or_grp 0 ;;
  Ok (if is_str c then PList [pins] else pins).

Definition normalise_pins (pins : pyval) : res (list (pyval * pyval)) :=
  pins' <- wrap_pins pins ;;
  units <- py_iter pins' ;;
  mapM normalise_unit units.

(** ** Typed pins for the layout code

    After normalisation a unit is a pair of sides, a side a list of groups,
    a group a list of [(name, number, type)] pins.  Per the module docstring
    name and number are each a string or an integer. *)

Inductive atom : Type :=
| AStr (s : string)
| AInt (z : Z).

(** Python [str(i)] for an int. *)
Definition Z_to_string (z : Z) : string := NilEmpty.string_of_int (Z.to_int z).

(** [str(x)] / ["{}".format(x)]. *)
Definition atom_str (a : atom) : string :=
  match a with AStr s => s | AInt z => Z_to_string z end.

Record pin : Type := mkPin { pin_name : atom; pin_num : atom; pin_type : string }.

Definition group := list pin.
Definition side := list group.
Definition unit := (side * side)%type.

(** [len(p[0])]: [len] of an int raises [TypeError]. *)
Definition name_len (p : pin) : res Z :=
  match pin_name p with
  | AStr s => Ok (Z.of_nat (String.length s))
  | AInt _ => Err TypeError
  end.

(** [len(str(p[1]))]. *)
Definition num_len (p : pin) : res Z :=
  Ok (Z.of_nat (String.length (atom_str (pin_num p)))).

(** [max(f(p) for p in grp)]. *)
Definition group_max (f : pin -> res Z) (grp : group) : res Z :=
  xs <- mapM f grp ;; py_max xs.

(** [max([0] + [max(f(p) for p in grp) for grp in groups])]. *)
Definition side_max (f : pin -> res Z) (groups : side) : res Z :=
  xs <- mapM (group_max f) groups ;; py_max (0 :: xs).

(** [longest_num] (lines 57-61). *)
Definition longest_num (units : list unit) : res Z :=
  xs <- mapM (fun u : unit =>
                let (left_pins, right_pins) := u in
                a <- side_max num_len left_pins ;;
                b <- side_max num_len right_pins ;;
                Ok (Z.max a b)) units ;;
  py_max xs.

Definition nonempty {A : Type} (xs : list A) : bool :=
  match xs with [] => false | _ => true end.

(** [sum(len(grp) for grp in groups)]. *)
Definition count_pins (groups : side) : Z :=
  fold_left (fun acc grp => acc + Z.of_nat (List.length grp)) groups 0.

(** [geometry] (lines 64-98): returns [(width, height, length)]. *)
Definition geometry (u : unit) (longest_num : Z) : res (Z * Z * Z) :=
  let (left_pins, right_pins) := u in
  let length := Z.max 100 (longest_num * 50) in
  a <- side_max name_len left_pins ;;
  b <- side_max name_len right_pins ;;
  let longest_name := Z.max a b in
  let width := (longest_name + 1) * 50 in
  let width := width + width mod 100 in
  let width := if nonempty left_pins && nonempty right_pins
               then width * 2 else width in
  let width := if negb ((width / 2 + length) mod 100 =? 0)
               then width + 2 * ((width / 2 + length) mod 100) else width in
  let n_left_pins := count_pins left_pins in
  let n_right_pins := count_pins right_pins in
  let n_left_groups := Z.of_nat (List.length left_pins) in
  let n_right_groups := Z.of_nat (List.length right_pins) in
  let height := 100 * Z.max (n_left_pins + n_left_groups - 1)
                            (n_right_pins + n_right_groups - 1) in
  let height := if (height / 100) mod 2 =? 0 then height + 100 else height in
  Ok (width, height, length).

(** ** Output lines *)

Definition dq : string := str1 (ascii_of_nat 34).
Definition nl : string := str1 (ascii_of_nat 10).
Definition sp : string := " ".

(** A component descriptor; [None] is a key absent from the YAML mapping. *)
Record conf : Type := mkConf {
  designator : option string;
  name : string;
  footprint : option string;
  datasheet : option string;
  ordercodes : option (list (string * string))
}.

Definition get {A : Type} (o : option A) (d : A) : A :=
  match o with Some a => a | None => d end.

Definition fst3 (g : Z * Z * Z) : Z := fst (fst g).
Definition snd3 (g : Z * Z * Z) : Z := snd (fst g).

(** One order-code line. *)
Definition ordercode_line (idx : nat) (supplier code : string)
    (field_x field_y : Z) : string :=
  ("F" ++ Z_to_string (Z.of_nat idx + 4) ++ sp ++ dq ++ code ++ dq ++ sp
   ++ Z_to_string field_x ++ sp
   ++ Z_to_string (- field_y - (300 + Z.of_nat idx * 100))
   ++ " 50 H I L CNN " ++ dq ++ supplier ++ dq)%string.

(** The order-code loop of [fields]:
    [for idx, (supplier, code) in enumerate(...)]. *)
Fixpoint ordercode_lines (idx : nat) (codes : list (string * string))
    (field_x field_y : Z) : list string :=
  match codes with
  | [] => []
  | (supplier, code) :: rest =>
      ordercode_line idx supplier code field_x field_y
      :: ordercode_lines (S idx) rest field_x field_y
  end.

(** [fields] (lines 135-171). *)
Definition fields (c : conf) (units : list unit) : res (list string) :=
  n <- longest_num units ;;
  geoms <- mapM (fun u => geometry u n) units ;;
  width <- py_max (map fst3 geoms) ;;
  height <- py_max (map snd3 geoms) ;;
  let field_x := (- width) / 2 in
  let field_y := height / 2 + 50 in
  let xs := Z_to_string field_x in
  Ok ([("F0 " ++ dq ++ get (designator c) "IC" ++ dq ++ sp ++ xs ++ sp
          ++ Z_to_string field_y ++ " 50 H V L CNN")%string;
       ("F1 " ++ dq ++ name c ++ dq ++ sp ++ xs ++ sp
          ++ Z_to_string (- field_y) ++ " 50 H V L CNN")%string;
       match footprint c with
       | Some fp => ("F2 " ++ dq ++ fp ++ dq ++ sp ++ xs ++ sp
                      ++ Z_to_string (- field_y - 100) ++ " 50 H I L CNN")%string
       | None => ("F2 " ++ dq ++ dq ++ sp ++ xs ++ sp
                   ++ Z_to_string (- field_y - 100) ++ " 50 H I L CNN")%string
       end;
       match datasheet c with
       | Some ds => ("F3 " ++ dq ++ ds ++ dq ++ sp ++ xs ++ sp
                      ++ Z_to_string (- field_y - 200) ++ " 50 H I L CNN")%string
       | None => ("F3 " ++ dq ++ dq ++ sp ++ xs ++ sp
                   ++ Z_to_string (- field_y - 200) ++ " 50 H I L CNN")%string
       end]
      ++ ordercode_lines 0 (get (ordercodes c) []) field_x field_y).

(** [pin_types] (lines 40-54). *)
Definition pin_types : list (string * string) :=
  [("in", "I"); ("out", "O"); ("bidi", "B"); ("tri", "T"); ("passive", "P");
   ("unspec", "U"); ("pwrin", "W"); ("pwrout", "w"); ("oc", "C"); ("od", "C");
   ("oe", "E"); ("os", "E"); ("nc", "N")]%string.

(** Dictionary lookup [d[k]]: [KeyError] when absent. *)
Fixpoint lookup (k : string) (d : list (string * string)) : res string :=
  match d with
  | [] => Err KeyError
  | (k', v) :: d' => if String.eqb k k' then Ok v else lookup k d'
  end.

(** One ["X ..."] pin line of [draw_pins]. *)
Definition pin_line (name num : atom) (pin_x pin_y length : Z)
    (direction : string) (unit_idx : Z) (t : string) : string :=
  ("X " ++ atom_str name ++ sp ++ atom_str num ++ sp ++ Z_to_string pin_x
   ++ sp ++ Z_to_string pin_y ++ sp ++ Z_to_string length ++ sp ++ direction
   ++ " 50 50 " ++ Z_to_string unit_idx ++ " 0 " ++ t)%string.

(** The inner loop of [draw_pins]: the lines of one group and the value of
    [pin_y] after it. *)
Fixpoint draw_group (grp : group) (pin_x pin_y : Z) (direction : string)
    (length unit_idx : Z) : res (list string * Z) :=
  match grp with
  | [] => Ok ([], pin_y)
  | p :: ps =>
      t <- lookup (pin_type p) pin_types ;;
      r <- draw_group ps pin_x (pin_y - 100) direction length unit_idx ;;
      Ok (pin_line (pin_name p) (pin_num p) pin_x pin_y length direction
            unit_idx t :: fst r, snd r)
  end.

(** [draw_pins] (lines 174-185): [pin_y] drops 100 after each pin and
    another 100 after each group. *)
Fixpoint draw_pins (groups : side) (pin_x pin_y : Z) (direction : string)
    (length unit_idx : Z) : res (list string) :=
  match groups with
  | [] => Ok []
  | grp :: rest =>
      r <- draw_group grp pin_x pin_y direction length unit_idx ;;
      more <- draw_pins rest pin_x (snd r - 100) direction length unit_idx ;;
      Ok (fst r ++ more)
  end.

(** The containing box of one unit. *)
Definition box_line (width height unit_idx : Z) : string :=
  ("S " ++ Z_to_string ((- width) / 2) ++ sp ++ Z_to_string (height / 2)
   ++ sp ++ Z_to_string (width / 2) ++ sp ++ Z_to_string ((- height) / 2)
   ++ sp ++ Z_to_string unit_idx ++ " 1 0 f")%string.

(** The body of the [for unit_idx, unit in enumerate(units)] loop of
    [draw] (lines 199-212). *)
Definition draw_unit (u : unit) (n unit_idx : Z) : res (list string) :=
  g <- geometry u n ;;
  let '(width, height, length) := g in
  let x0 := (- width) / 2 - length in
  let y0 := height / 2 - 50 in
  let (left_pins, right_pins) := u in
  l <- (if nonempty left_pins
        then draw_pins left_pins x0 y0 "R" length unit_idx else Ok []) ;;
  r <- (if nonempty right_pins
        then draw_pins right_pins (- x0) y0 "L" length unit_idx else Ok []) ;;
  Ok (box_line width height unit_idx :: l ++ r).

Fixpoint draw_units (units : list unit) (i : nat) (multi : bool) (n : Z)
    : res (list string) :=
  match units with
  | [] => Ok []
  | u :: rest =>
      let unit_idx := if multi then Z.of_nat i + 1 else Z.of_nat i in
      a <- draw_unit u n unit_idx ;;
      b <- draw_units rest (S i) multi n ;;
      Ok (a ++ b)
  end.

(** [draw] (lines 188-215). *)
Definition draw (units : list unit) : res (list string) :=
  n <- longest_num units ;;
  body <- draw_units units 0 (Nat.ltb 1 (List.length units)) n ;;
  Ok (["DRAW"%string] ++ body ++ ["ENDDRAW"%string]).

(** The [DEF] line of [library] (lines 230-232). *)
Definition def_line (name des : string) (n_units : nat) : string :=
  let locked := if Nat.eqb n_units 1 then "F"%string else "L"%string in
  ("DEF " ++ name ++ sp ++ des ++ " 0 40 Y Y " ++ Z_to_string (Z.of_nat n_units)
   ++ sp ++ locked ++ " N")%string.

(** The lines [library] emits for one component before its fields
    (lines 228-232). *)
Definition library_head (c : conf) (pins : pyval) : res (list string) :=
  units <- normalise_pins pins ;;
  Ok [("#" ++ nl ++ "# " ++ name c ++ nl ++ "#")%string;
      def_line (name c) (get (designator c) "IC"%string) (List.length units)].

(** ** [documentation] (lines 242-255) *)

(** One element of the configuration as [documentation] reads it: its
    ["name"], ["description"] and ["datasheet"] entries, each [None] when
    the key is absent from the mapping. *)
Record component : Type := mkComponent {
  elm_name : option string;
  elm_description : option string;
  elm_datasheet : option string
}.

(** [elm[k]] on a mapping: [KeyError] when the key is absent. *)
Definition key (o : option string) : res string :=
  match o with Some v => Ok v | None => Err KeyError end.

(** The YAML document: one mapping, or a list of them. *)
Inductive config : Type :=
| One (elm : component)
| Several (elms : list component).

(** [if not isinstance(conf, list): conf = [conf]]. *)
Definition as_list (cfg : config) : list component :=
  match cfg with One elm => [elm] | Several elms => elms end.

(** The lines of one [for elm in conf] iteration; [elm['name']] and
    [elm['description']] raise [KeyError] when the key is absent, while the
    datasheet line is only written when the key is present. *)
Definition doc_entry (elm : component) : res (list string) :=
  n <- key (elm_name elm) ;;
  d <- key (elm_description elm) ;;
  Ok (["$CMP " ++ n; "D " ++ d]%string
      ++ match elm_datasheet elm with Some ds => ["F " ++ ds]%string | None => [] end
      ++ ["$ENDCMP"%string]).

Definition documentation (cfg : config) : res string :=
  lines <- mapM doc_entry (as_list cfg) ;;
  Ok (String.concat nl ("EESchema-DOCLIB  Version 2.0"%string :: List.concat lines)).

(** ** Sample inputs *)

Definition P (nm : string) (num : Z) (t : string) : pin := mkPin (AStr nm) (AInt num) t.

Definition scenario_a : unit := ([[P "A" 1 "in"; P "B" 2 "in"]], []).

Example scenario_a_geometry : geometry scenario_a 1 = Ok (200, 300, 100).
Proof. reflexivity. Qed.

(** ** Arithmetic of the layout *)

Lemma round100_mod (x : Z) : x mod 50 = 0 -> (x + x mod 100) mod 100 = 0.
Proof. intros H. Z.div_mod_to_equations. lia. Qed.

Lemma round100_bounds (x : Z) :
  x mod 50 = 0 -> x <= x + x mod 100 < x + 100.
Proof. intros H. Z.div_mod_to_equations. lia. Qed.

Lemma nudge_align (w0 l : Z) :
  w0 mod 100 = 0 -> l mod 50 = 0 ->
  let w := if negb ((w0 / 2 + l) mod 100 =? 0)
           then w0 + 2 * ((w0 / 2 + l) mod 100) else w0 in
  (w / 2 + l) mod 100 = 0 /\ w mod 100 = 0 /\
  w = w0 + (if (w0 / 2 + l) mod 100 =? 0 then 0 else 100).
Proof.
  intros H1 H2 w; subst w.
  destruct (Z.eqb_spec ((w0 / 2 + l) mod 100) 0) as [E|E]; cbn [negb].
  - repeat split; lia.
  - Z.div_mod_to_equations. repeat split; lia.
Qed.

Lemma stub_mod (n : Z) : Z.max 100 (n * 50) mod 50 = 0.
Proof.
  destruct (Z.max_spec 100 (n * 50)) as [[_ ->]|[_ ->]].
  - apply Z.mod_mul; lia.
  - reflexivity.
Qed.

Lemma res_ok_inj {A : Type} (a b : A) : Ok a = Ok b -> a = b.
Proof. intros H. injection H as E. exact E. Qed.

(** Inverting a successful [geometry]. *)
Ltac geometry_inv H :=
  unfold geometry, bind in H;
  lazymatch type of H with
  | context [side_max name_len ?lp] =>
      destruct (side_max name_len lp) as [?a|?e]; [|discriminate H]
  end;
  lazymatch type of H with
  | context [side_max name_len ?rp] =>
      destruct (side_max name_len rp) as [?b|?e]; [|discriminate H]
  end;
  cbv zeta in H; apply res_ok_inj in H;
  rewrite !pair_equal_spec in H; destruct H as [[<- <-] <-].

Lemma geometry_width (lp rp : side) (n w h l : Z) :
  geometry (lp, rp) n = Ok (w, h, l) ->
  exists a b base w1,
    side_max name_len lp = Ok a /\ side_max name_len rp = Ok b /\
    base mod 100 = 0 /\
    (Z.max a b + 1) * 50 <= base < (Z.max a b + 1) * 50 + 100 /\
    w1 = (if nonempty lp && nonempty rp then base * 2 else base) /\
    l = Z.max 100 (n * 50) /\
    w = w1 + (if (w1 / 2 + l) mod 100 =? 0 then 0 else 100) /\
    (w / 2 + l) mod 100 = 0 /\ w mod 100 = 0.
Proof.
  intros H.
  unfold geometry, bind in H.
  destruct (side_max name_len lp) as [a|e]; [|discriminate H].
  destruct (side_max name_len rp) as [b|e]; [|discriminate H].
  injection H as Hw Hh Hl.
  set (x := (Z.max a b + 1) * 50) in *.
  assert (Hx : x mod 50 = 0) by (subst x; apply Z.mod_mul; lia).
  pose proof (round100_mod x Hx) as Hr.
  pose proof (round100_bounds x Hx) as Hb.
  set (w1 := if nonempty lp && nonempty rp then (x + x mod 100) * 2
             else x + x mod 100) in *.
  assert (Hw1 : w1 mod 100 = 0).
  { subst w1. destruct (nonempty lp && nonempty rp); [|exact Hr].
    rewrite Z.mul_mod, Hr by lia. reflexivity. }
  pose proof (nudge_align w1 (Z.max 100 (n * 50)) Hw1 (stub_mod n)) as [A [B C]].
  exists a, b, (x + x mod 100), w1.
  subst l w.
  repeat split; try reflexivity; try lia; assumption.
Qed.

Lemma count_pins_concat (gs : side) :
  count_pins gs = Z.of_nat (List.length (List.concat gs)).
Proof.
  unfold count_pins.
  assert (G : forall acc, fold_left (fun acc grp => acc + Z.of_nat (List.length grp)) gs acc
                          = acc + Z.of_nat (List.length (List.concat gs))).
  { induction gs as [|g gs IH]; intros acc; simpl; [lia|].
    rewrite IH, length_app. lia. }
  rewrite G. lia.
Qed.

(** [max([0] + xs)] is the maximum of the entries, and [0] when there are
    none. *)
Lemma fold_max_ge (xs : list Z) (x : Z) :
  x <= fold_left Z.max xs x /\ Forall (fun y => y <= fold_left Z.max xs x) xs.
Proof.
  revert x; induction xs as [|y ys IH]; intros x; simpl.
  - split; [lia | constructor].
  - destruct (IH (Z.max x y)) as [A B]. split; [lia|].
    constructor; [lia | exact B].
Qed.

Lemma fold_max_in (xs : list Z) (x : Z) :
  fold_left Z.max xs x = x \/ In (fold_left Z.max xs x) xs.
Proof.
  revert x; induction xs as [|y ys IH]; intros x; simpl; [left; reflexivity|].
  destruct (IH (Z.max x y)) as [E|E]; [|right; right; exact E].
  rewrite E. destruct (Z.max_spec x y) as [[_ ->]|[_ ->]]; [right; left|left]; reflexivity.
Qed.

Lemma mapM_ok {A B : Type} (f : A -> res B) (xs : list A) (ys : list B) :
  mapM f xs = Ok ys -> Forall2 (fun x y => f x = Ok y) xs ys.
Proof.
  revert ys; induction xs as [|x xs IH]; intros ys H; simpl in H.
  - injection H as <-. constructor.
  - unfold bind in H. destruct (f x) as [y|e] eqn:E; [|discriminate].
    destruct (mapM f xs) as [ys'|e] eqn:E'; [|discriminate].
    injection H as <-. constructor; [exact E | apply IH; reflexivity].
Qed.

Lemma mapM_err {A B : Type} (f : A -> res B) (xs : list A) (e : pyerr) :
  mapM f xs = Err e -> exists x, In x xs /\ f x = Err e.
Proof.
  induction xs as [|x xs IH]; simpl; [discriminate|].
  unfold bind. destruct (f x) as [y|e'] eqn:E.
  - destruct (mapM f xs) as [ys|e''] eqn:E'; [discriminate|].
    intros H; injection H as ->.
    destruct (IH eq_refl) as [z [Hz Hf]]. exists z; split; [right|]; assumption.
  - intros H; injection H as ->. exists x; split; [left; reflexivity | exact E].
Qed.

(** ** Claims on [geometry] *)

(** C1: for every unit and every shared longest pin-number length, the
    triple returned by [geometry] has [(width // 2 + length) % 100 == 0]:
    the pin ends lie on the 0.1 inch grid. *)
Theorem geometry_grid_aligned (u : unit) (n w h l : Z) :
  geometry u n = Ok (w, h, l) -> (w / 2 + l) mod 100 = 0.
Proof.
  destruct u as [lp rp]. intros H.
  destruct (geometry_width lp rp n w h l H)
    as (a & b & base & w1 & _ & _ & _ & _ & _ & _ & _ & Hal & _).
  exact Hal.
Qed.

(** C2: the height is [100 * max(left pins + left groups - 1, right pins +
    right groups - 1)], plus [100] when that row count is even; so it is
    always an odd multiple of 100. *)
Theorem geometry_height_odd (lp rp : side) (n w h l : Z) :
  geometry (lp, rp) n = Ok (w, h, l) ->
  let rows := Z.max
    (Z.of_nat (List.length (List.concat lp)) + Z.of_nat (List.length lp) - 1)
    (Z.of_nat (List.length (List.concat rp)) + Z.of_nat (List.length rp) - 1) in
  h = 100 * rows + (if Z.even rows then 100 else 0) /\
  h mod 100 = 0 /\ Z.odd (h / 100) = true.
Proof.
  intros H. geometry_inv H. cbv zeta.
  rewrite !count_pins_concat.
  set (rows := Z.max _ _).
  replace (100 * rows / 100) with rows
    by (rewrite Z.mul_comm, Z.div_mul; lia).
  rewrite Zeven_mod.
  destruct (Z.eqb_spec (rows mod 2) 0) as [E|E].
  - split; [lia|]. split.
    + rewrite Z.add_comm, Z.mul_comm, Z.mod_add by lia. reflexivity.
    + replace ((100 * rows + 100) / 100) with (rows + 1).
      * rewrite Zodd_mod. apply Z.eqb_eq. Z.div_mod_to_equations. lia.
      * replace (100 * rows + 100) with ((rows + 1) * 100) by lia.
        rewrite Z.div_mul; lia.
  - split; [lia|]. split.
    + rewrite Z.mul_comm, Z.mod_mul; lia.
    + rewrite Z.mul_comm, Z.div_mul by lia.
      rewrite Zodd_mod. apply Z.eqb_eq. Z.div_mod_to_equations. lia.
Qed.

Lemma Forall2_in_l {A B : Type} (R : A -> B -> Prop) xs ys x :
  Forall2 R xs ys -> In x xs -> exists y, In y ys /\ R x y.
Proof.
  induction 1 as [|x' y' xs' ys' Hr _ IH]; simpl; [tauto|].
  intros [<-|Hin]; [exists y'; tauto|].
  destruct (IH Hin) as [y [Hy Hxy]]. exists y; tauto.
Qed.




(** C3 (as amended): the width is [(longest_name + 1) * 50] rounded up to
    a multiple of 100 (not 200), doubled when both sides have groups, and
    then increased by 100 exactly when half of it plus the stub length is
    not a multiple of 100.  [a] and [b] are the longest pin names of the
    two sides (see [side_max_spec]). *)
Theorem geometry_width_round100 (lp rp : side) (n w h l : Z) :
  geometry (lp, rp) n = Ok (w, h, l) ->
  exists a b base w1,
    side_max name_len lp = Ok a /\ side_max name_len rp = Ok b /\
    base mod 100 = 0 /\
    (Z.max a b + 1) * 50 <= base < (Z.max a b + 1) * 50 + 100 /\
    w1 = (if nonempty lp && nonempty rp then base * 2 else base) /\
    l = Z.max 100 (n * 50) /\
    w = w1 + (if (w1 / 2 + l) mod 100 =? 0 then 0 else 100).
Proof.
  intros H.
  destruct (geometry_width lp rp n w h l H)
    as (a & b & base & w1 & Ha & Hb & Hm & Hr & Hw1 & Hl & Hw & _ & _).
  exists a, b, base, w1. tauto.
Qed.

Definition one_pin_unit : unit := ([[P "A" 100 "in"]], []).

(** C3 counterexample: a one-sided unit whose longest name is ["A"]
    (length 1) and whose pin number is ["100"] gets width 100, while any
    multiple of 200 at least [(1 + 1) * 50], plus a non-negative nudge, is
    at least 200. *)
Lemma geometry_width_not_round200 :
  longest_num [one_pin_unit] = Ok 3 /\
  geometry one_pin_unit 3 = Ok (100, 100, 150) /\
  ~ (exists w0 nudge, w0 mod 200 = 0 /\ (1 + 1) * 50 <= w0 /\ 0 <= nudge /\
                      100 = w0 + nudge).
Proof.
  split; [reflexivity|]. split; [reflexivity|].
  intros (w0 & nudge & H1 & H2 & H3 & H4).
  Z.div_mod_to_equations. lia.
Qed.

(** C10: for a unit with no groups on either side, [geometry] returns
    height [-100] ([100 * max(-1, -1)], and [-1] rows is odd so no row is
    added), and the box drawn for it has its top edge ([-50]) below its
    bottom edge ([50]). *)
Theorem geometry_empty_unit (n unit_idx : Z) :
  exists w l,
    geometry ([], []) n = Ok (w, -100, l) /\
    draw_unit ([], []) n unit_idx = Ok [box_line w (-100) unit_idx] /\
    box_line w (-100) unit_idx =
      ("S " ++ Z_to_string ((- w) / 2) ++ " -50 " ++ Z_to_string (w / 2)
       ++ " 50 " ++ Z_to_string unit_idx ++ " 1 0 f")%string.
Proof.
  do 2 eexists. split; [reflexivity|]. split; reflexivity.
Qed.

(** C8: an empty side contributes [0] to the longest-name and
    longest-number maxima and is never the cause of an exception: a failing
    [geometry] of a unit with an empty side fails on the other side, a unit
    with both sides empty has a geometry, and a failing [longest_num] on a
    non-empty unit list fails on some side that is itself failing (an empty
    side never fails). *)
Theorem empty_side_safe :
  side_max name_len [] = Ok 0 /\ side_max num_len [] = Ok 0 /\
  (forall r n e, geometry ([], r) n = Err e -> side_max name_len r = Err e) /\
  (forall l n e, geometry (l, []) n = Err e -> side_max name_len l = Err e) /\
  (forall n, exists w h l, geometry ([], []) n = Ok (w, h, l)) /\
  (forall us e, us <> [] -> longest_num us = Err e ->
     exists l r, In (l, r) us /\
       (side_max num_len l = Err e \/ side_max num_len r = Err e)).
Proof.
  split; [reflexivity|]. split; [reflexivity|]. split; [|split; [|split]].
  - intros r n e. unfold geometry, bind.
    destruct (side_max name_len r); simpl; intros H; congruence.
  - intros l n e. unfold geometry, bind.
    destruct (side_max name_len l); simpl; intros H; congruence.
  - intros n. do 3 eexists. reflexivity.
  - intros us e Hne. unfold longest_num, bind.
    destruct (mapM _ us) as [xs|e'] eqn:E.
    + apply mapM_ok in E. destruct xs as [|x xs]; [|discriminate].
      inversion E; subst; contradiction.
    + intros H; injection H as ->.
      destruct (mapM_err _ _ _ E) as [[l r] [Hin Hf]].
      exists l, r. split; [exact Hin|].
      destruct (side_max num_len l); [|left; exact Hf].
      destruct (side_max num_len r); [discriminate | right; exact Hf].
Qed.

(** ** Field lines *)

Lemma str_app_assoc (a b c : string) : ((a ++ b) ++ c = a ++ b ++ c)%string.
Proof. induction a as [|ch a IH]; simpl; [reflexivity | rewrite IH; reflexivity]. Qed.

Lemma ordercode_lines_length idx codes fx fy :
  List.length (ordercode_lines idx codes fx fy) = List.length codes.
Proof.
  revert idx; induction codes as [|[s c] codes IH]; intros idx; simpl; [reflexivity|].
  rewrite IH. reflexivity.
Qed.

Lemma ordercode_lines_nth idx codes fx fy k :
  nth_error (ordercode_lines idx codes fx fy) k =
  option_map (fun sc => ordercode_line (idx + k) (fst sc) (snd sc) fx fy)
             (nth_error codes k).
Proof.
  revert idx k; induction codes as [|[s c] codes IH]; intros idx k; simpl.
  - destruct k; reflexivity.
  - destruct k as [|k]; simpl.
    + rewrite Nat.add_0_r. reflexivity.
    + rewrite IH. replace (S idx + k)%nat with (idx + S k)%nat by lia. reflexivity.
Qed.

(** The texts of fields 0, 1, 2, 3, 4, ... in the order the spec lists
    them: designator, name, footprint, datasheet, then the order codes. *)
Definition field_texts (c : conf) : list string :=
  [get (designator c) "IC"; name c; get (footprint c) ""; get (datasheet c) ""]%string
  ++ map snd (get (ordercodes c) []).

(** C5: the field lines are numbered 0, 1, 2, 3 (footprint and datasheet
    with an empty text when absent), followed by one line per order code,
    numbered from 4 in input order and tagged with the supplier; with no
    order codes there are exactly four lines. *)
Theorem fields_indices (c : conf) (units : list unit) (out : list string) :
  fields c units = Ok out ->
  List.length out = (4 + List.length (get (ordercodes c) []))%nat /\
  (forall i line, nth_error out i = Some line ->
     exists rest, line = ("F" ++ Z_to_string (Z.of_nat i) ++ " " ++ dq
                          ++ nth i (field_texts c) "" ++ dq ++ " " ++ rest)%string) /\
  (forall k supplier code,
     nth_error (get (ordercodes c) []) k = Some (supplier, code) ->
     exists mid, nth_error out (4 + k) =
       Some ("F" ++ Z_to_string (Z.of_nat (4 + k)) ++ " " ++ dq ++ code ++ dq
             ++ " " ++ mid ++ dq ++ supplier ++ dq)%string).
Proof.
  unfold fields, bind.
  destruct (longest_num units) as [n|e]; [|discriminate].
  destruct (mapM _ units) as [geoms|e]; [|discriminate].
  destruct (py_max (map fst3 geoms)) as [width|e]; [|discriminate].
  destruct (py_max (map snd3 geoms)) as [height|e]; [|discriminate].
  intros H. apply res_ok_inj in H. subst out.
  set (codes := get (ordercodes c) []).
  set (fx := (- width) / 2). set (fy := height / 2 + 50).
  split; [|split].
  - simpl. rewrite ordercode_lines_length. reflexivity.
  - intros i line Hi. unfold field_texts.
    destruct i as [|[|[|[|i]]]]; simpl in Hi.
    + injection Hi as <-. eexists. reflexivity.
    + injection Hi as <-. eexists. reflexivity.
    + destruct (footprint c); injection Hi as <-; eexists; reflexivity.
    + destruct (datasheet c); injection Hi as <-; eexists; reflexivity.
    + rewrite ordercode_lines_nth in Hi. simpl in Hi.
      simpl. fold codes.
      destruct (nth_error codes i) as [[s cd]|] eqn:E; [|discriminate].
      injection Hi as <-.
      rewrite (nth_error_nth (map snd codes) i ""%string (map_nth_error snd i codes E)). simpl.
      unfold ordercode_line.
      replace (Z.of_nat i + 4) with (Z.of_nat (4 + i)) by lia.
      eexists. reflexivity.
  - intros k s cd E. simpl. rewrite ordercode_lines_nth. fold codes. rewrite E. simpl.
    unfold ordercode_line.
    replace (Z.of_nat k + 4) with (Z.of_nat (4 + k)) by lia.
    exists (Z_to_string fx ++ sp ++ Z_to_string (- fy - (300 + Z.of_nat k * 100))
            ++ " 50 H I L CNN ")%string.
    rewrite !str_app_assoc. reflexivity.
Qed.

(** ** Pin placement *)

(** Where the spec puts the pins of one side: pin [j] of group [g] is
    drawn [100 * (pins of the groups before g + j + g)] below the start
    point, i.e. one row per pin and one gap row per earlier group, in input
    order, with the render code of its electrical type. *)
Definition placed (gs : side) (x y : Z) (direction : string) (length unit_idx : Z)
    (out : list string) : Prop :=
  List.length out = List.length (List.concat gs) /\
  forall g j grp p, nth_error gs g = Some grp -> nth_error grp j = Some p ->
    let k := (List.length (List.concat (firstn g gs)) + j)%nat in
    exists t, lookup (pin_type p) pin_types = Ok t /\
      nth_error out k =
        Some (pin_line (pin_name p) (pin_num p) x (y - 100 * Z.of_nat (k + g))
                       length direction unit_idx t).

Lemma draw_group_ok grp x y direction length unit_idx r :
  draw_group grp x y direction length unit_idx = Ok r ->
  snd r = y - 100 * Z.of_nat (List.length grp) /\
  List.length (fst r) = List.length grp /\
  forall j p, nth_error grp j = Some p ->
    exists t, lookup (pin_type p) pin_types = Ok t /\
      nth_error (fst r) j =
        Some (pin_line (pin_name p) (pin_num p) x (y - 100 * Z.of_nat j)
                       length direction unit_idx t).
Proof.
  revert y r; induction grp as [|q grp IH]; intros y r H; cbn [draw_group] in H.
  - apply res_ok_inj in H. subst r. simpl. split; [lia|]. split; [reflexivity|].
    intros j p Hj. destruct j; discriminate.
  - unfold bind in H.
    destruct (lookup (pin_type q) pin_types) as [t|e] eqn:Et; [|cbn in H; discriminate H].
    destruct (draw_group grp x (y - 100) direction length unit_idx) as [r'|e] eqn:Er;
      [|cbn in H; discriminate H].
    apply res_ok_inj in H. subst r. simpl.
    destruct (IH (y - 100) r' Er) as [A [B C]].
    split; [lia|]. split; [lia|].
    intros [|j] p Hj; simpl in Hj.
    + injection Hj as <-. exists t. split; [exact Et|]. simpl.
      rewrite Z.sub_0_r. reflexivity.
    + destruct (C j p Hj) as [t' [Ht' Hn]]. exists t'. split; [exact Ht'|].
      simpl. rewrite Hn. do 2 f_equal. lia.
Qed.

Lemma placed_nil x y direction length unit_idx :
  placed [] x y direction length unit_idx [].
Proof.
  split; [reflexivity|]. intros g j grp p Hg. destruct g; discriminate.
Qed.

Lemma draw_pins_placed gs x y direction length unit_idx out :
  draw_pins gs x y direction length unit_idx = Ok out ->
  placed gs x y direction length unit_idx out.
Proof.
  revert y out; induction gs as [|grp gs IH]; intros y out H; cbn [draw_pins] in H.
  - apply res_ok_inj in H. subst out. apply placed_nil.
  - unfold bind in H.
    destruct (draw_group grp x y direction length unit_idx) as [r|e] eqn:Er;
      [|cbn in H; discriminate H].
    destruct (draw_pins gs x (snd r - 100) direction length unit_idx) as [more|e] eqn:Em;
      [|cbn in H; discriminate H].
    apply res_ok_inj in H. subst out.
    destruct (draw_group_ok _ _ _ _ _ _ _ Er) as [A [B C]].
    destruct (IH _ _ Em) as [D E].
    split.
    + simpl. rewrite !length_app, B, D. reflexivity.
    + intros [|g] j grp' p Hg Hj; simpl in Hg.
      * injection Hg as <-. cbn [firstn List.concat Datatypes.length Nat.add].
        destruct (C j p Hj) as [t [Ht Hn]]. exists t. split; [exact Ht|].
        rewrite nth_error_app1.
        -- rewrite Hn. do 2 f_equal. lia.
        -- rewrite B. apply nth_error_Some. congruence.
      * destruct (E g j grp' p Hg Hj) as [t [Ht Hn]]. exists t. split; [exact Ht|].
        cbn [firstn List.concat]. rewrite length_app, <- Nat.add_assoc, nth_error_app2 by lia.
        rewrite B, Nat.add_comm, Nat.add_sub. rewrite Hn.
        rewrite A. do 2 f_equal. lia.
Qed.

Lemma geometry_width_even (u : unit) (n w h l : Z) :
  geometry u n = Ok (w, h, l) -> w mod 2 = 0.
Proof.
  destruct u as [lp rp]. intros H.
  destruct (geometry_width lp rp n w h l H)
    as (a & b & base & w1 & _ & _ & _ & _ & _ & _ & _ & _ & Hw).
  Z.div_mod_to_equations. lia.
Qed.

Lemma draw_side_placed (gs : side) x y direction length unit_idx ls :
  (if nonempty gs then draw_pins gs x y direction length unit_idx else Ok []) = Ok ls ->
  placed gs x y direction length unit_idx ls.
Proof.
  destruct gs as [|g gs]; simpl.
  - intros H. apply res_ok_inj in H. subst ls. apply placed_nil.
  - intros H. apply draw_pins_placed. exact H.
Qed.

(** C6 (as amended): a unit is drawn as its box followed by the left pins
    and then the right pins.  The left pins point right from
    [x = -(width // 2) - length]; the right pins point left from the mirrored
    [x = width // 2 + length].  Both sides start at [y = height // 2 - 50],
    half a row below the top edge of the box (not at the corner itself),
    and descend 100 per pin with one extra 100 gap after each group, in
    input order.  The right side restarts from that same height whatever
    the left side holds; width, height and length come from the one
    [geometry] call of the unit, which covers both sides. *)
Theorem draw_unit_layout (lp rp : side) (n unit_idx : Z) (out : list string) :
  draw_unit (lp, rp) n unit_idx = Ok out ->
  exists w h l ls rs,
    geometry (lp, rp) n = Ok (w, h, l) /\
    out = box_line w h unit_idx :: ls ++ rs /\
    placed lp (- (w / 2) - l) (h / 2 - 50) "R" l unit_idx ls /\
    placed rp (w / 2 + l) (h / 2 - 50) "L" l unit_idx rs.
Proof.
  intros H. unfold draw_unit, bind in H.
  destruct (geometry (lp, rp) n) as [[[w h] l]|e] eqn:G; [|discriminate H].
  cbv beta iota zeta in H.
  destruct (if nonempty lp then draw_pins lp ((- w) / 2 - l) (h / 2 - 50) "R" l unit_idx
            else Ok []) as [ls|e] eqn:EL; [|discriminate H].
  destruct (if nonempty rp then draw_pins rp (- ((- w) / 2 - l)) (h / 2 - 50) "L" l unit_idx
            else Ok []) as [rs|e] eqn:ER; [|discriminate H].
  apply res_ok_inj in H. subst out.
  pose proof (geometry_width_even _ _ _ _ _ G) as Hev.
  assert (Hx : (- w) / 2 = - (w / 2)) by (Z.div_mod_to_equations; lia).
  rewrite Hx in EL, ER.
  replace (- (- (w / 2) - l)) with (w / 2 + l) in ER by lia.
  exists w, h, l, ls, rs. split; [reflexivity|]. split; [reflexivity|].
  split; apply draw_side_placed; assumption.
Qed.

Definition corner_unit : unit := ([[P "A" 1 "in"]], []).

(** C6 counterexample: for a one-pin unit the box spans [y = 50 .. -50]
    and the pin is drawn at [y = 0], not level with the top-left corner
    ([y = 50]). *)
Lemma draw_first_pin_below_corner :
  longest_num [corner_unit] = Ok 1 /\
  geometry corner_unit 1 = Ok (200, 100, 100) /\
  draw_unit corner_unit 1 0 =
    Ok [box_line 200 100 0;
        pin_line (AStr "A") (AInt 1) (-200) 0 100 "R" 0 "I"] /\
  0 <> 100 / 2.
Proof.
  split; [reflexivity|]. split; [reflexivity|]. split; [reflexivity|].
  discriminate.
Qed.

(** ** Normalisation *)

Lemma bind_ok {A B : Type} (a : A) (k : A -> res B) : bind (Ok a) k = k a.
Proof. reflexivity. Qed.

Lemma bind_err {A B : Type} (e : pyerr) (k : A -> res B) : bind (Err e) k = Err e.
Proof. reflexivity. Qed.

Lemma bind_err_inv {A B : Type} (m : res A) (k : A -> res B) (e : pyerr) :
  bind m k = Err e -> m = Err e \/ exists a, m = Ok a /\ k a = Err e.
Proof.
  destruct m as [a|e0].
  - rewrite bind_ok. intros H. right. exists a. split; [reflexivity | exact H].
  - rewrite bind_err. intros H. left. injection H as ->. reflexivity.
Qed.

Ltac res_cases :=
  repeat match goal with
  | |- context [bind ?m _] =>
      let E := fresh "E" in
      destruct m eqn:E;
      [rewrite bind_ok; cbv beta | rewrite bind_err; try (intros ?H; discriminate H)]
  end.

Lemma py_index_not_value (x : pyval) (i : nat) : py_index x i <> Err ValueError.
Proof.
  destruct x as [| | s | xs]; simpl; try discriminate.
  - destruct (String.get i s); discriminate.
  - destruct (nth_error xs i); discriminate.
Qed.

Lemma py_len_not_value (x : pyval) : py_len x <> Err ValueError.
Proof. destruct x; discriminate. Qed.

Lemma py_iter_not_value (x : pyval) : py_iter x <> Err ValueError.
Proof. destruct x; discriminate. Qed.

Lemma bind_not_value {A B : Type} (m : res A) (k : A -> res B) :
  m <> Err ValueError -> (forall a, k a <> Err ValueError) ->
  bind m k <> Err ValueError.
Proof.
  destruct m as [a|e]; simpl; [intros _ H; apply H|].
  intros H _ E. injection E as ->. apply H. reflexivity.
Qed.

Ltac not_value :=
  repeat first
    [ apply bind_not_value; [|intros ?]
    | apply py_index_not_value | apply py_len_not_value | apply py_iter_not_value
    | discriminate
    | match goal with |- (if ?b then _ else _) <> _ => destruct b end ].

Lemma unit_marker_not_value (u : pyval) : unit_marker u <> Err ValueError.
Proof. unfold unit_marker. not_value. Qed.





Lemma mapM_all_ok {A B : Type} (f : A -> res B) (xs : list A) :
  (forall x, In x xs -> exists y, f x = Ok y) ->
  exists ys, mapM f xs = Ok ys /\ List.length ys = List.length xs.
Proof.
  induction xs as [|x xs IH]; intros H; simpl; [exists []; split; reflexivity|].
  destruct (H x (or_introl eq_refl)) as [y Hy]. rewrite Hy, bind_ok.
  destruct IH as [ys [Hys Hl]]; [intros z Hz; apply H; right; exact Hz|].
  rewrite Hys, bind_ok. exists (y :: ys). split; [reflexivity | simpl; lia].
Qed.

Lemma py_index0_iter (x a : pyval) :
  py_index x 0 = Ok a -> exists us, py_iter x = Ok us /\ us <> [].
Proof.
  destruct x as [| | s | xs]; simpl; try discriminate.
  - destruct s as [|c s]; simpl; [discriminate|]. intros _.
    eexists; split; [reflexivity | discriminate].
  - destruct xs as [|y xs]; simpl; [discriminate|]. intros _.
    eexists; split; [reflexivity | discriminate].
Qed.

Lemma wrap_pins_iter (pins p' : pyval) :
  wrap_pins pins = Ok p' -> exists us, py_iter p' = Ok us /\ us <> [].
Proof.
  unfold wrap_pins.
  destruct (py_index pins 0) as [a|e] eqn:E0; [rewrite bind_ok | discriminate].
  res_cases.
  intros H. apply res_ok_inj in H. subst p'.
  destruct (is_str _).
  - eexists; split; [reflexivity | discriminate].
  - eapply py_index0_iter; exact E0.
Qed.

Lemma normalise_pins_nonempty (pins : pyval) (units : list (pyval * pyval)) :
  normalise_pins pins = Ok units -> units <> [].
Proof.
  unfold normalise_pins.
  destruct (wrap_pins pins) as [p'|e] eqn:W; [rewrite bind_ok | discriminate].
  destruct (wrap_pins_iter pins p' W) as [us [Hi Hne]].
  rewrite Hi, bind_ok. intros H. apply mapM_ok in H.
  destruct us as [|u us]; [contradiction|]. inversion H. discriminate.
Qed.

(** A single unit given as its left groups, whose first pin name is a
    string, is wrapped and read as one left-only unit. *)
Lemma normalise_single_left_str (s : string) (rest ps gs : list pyval) :
  let groups := PList (PList (PStr s :: rest) :: ps) :: gs in
  normalise_pins (PList [PList groups]) = Ok [(PList groups, PList [])].
Proof. reflexivity. Qed.

Definition int_pin (k : Z) : pyval := PList [PInt k; PInt k; PStr "in"].

(** One left group of two pins named by integers ([- - - [1, 1, in]]). *)
Definition int_groups : pyval := PList [PList [int_pin 1; int_pin 2]].

(** C4 (code bug): with integer pin names, which the docstring allows, the
    single-unit test [isinstance(first_pin_or_grp[0], str)] fails, the
    input is not wrapped, and the one group is read as the left side of a
    unit whose "groups" are the two pins; [geometry] would then raise
    [TypeError] on [len] of an integer name anyway. *)
Theorem normalise_int_names_misread :
  normalise_pins (PList [int_groups]) =
    Ok [(PList [int_pin 1; int_pin 2], PList [])] /\
  PList [int_pin 1; int_pin 2] <> int_groups /\
  geometry ([[mkPin (AInt 1) (AInt 1) "in"; mkPin (AInt 2) (AInt 2) "in"]], []) 1
    = Err TypeError.
Proof.
  split; [reflexivity|]. split; [discriminate | reflexivity].
Qed.










Definition pin_a : pyval := PList [PStr "A"; PInt 1; PStr "in"].


(** ** The DEF header *)

(** C9: the [DEF] line [library] emits for a component carries the unit
    count and the locked flag [L] exactly when the component has more than
    one unit, [F] for a single unit (normalisation never yields zero
    units). *)
Theorem library_locked_flag (c : conf) (pins : pyval) (units : list (pyval * pyval)) :
  normalise_pins pins = Ok units ->
  (1 <= List.length units)%nat /\
  library_head c pins =
    Ok [("#" ++ nl ++ "# " ++ name c ++ nl ++ "#")%string;
        ("DEF " ++ name c ++ " " ++ get (designator c) "IC" ++ " 0 40 Y Y "
         ++ Z_to_string (Z.of_nat (List.length units)) ++ " "
         ++ (if Nat.ltb 1 (List.length units) then "L" else "F") ++ " N")%string].
Proof.
  intros H. pose proof (normalise_pins_nonempty pins units H) as Hne.
  split; [destruct units; [contradiction | simpl; lia]|].
  unfold library_head. rewrite H, bind_ok. unfold def_line.
  destruct (List.length units) as [|[|k]] eqn:El.
  - destruct units; [contradiction | discriminate].
  - reflexivity.
  - reflexivity.
Qed.

(** ** Witnesses: the theorems applied to concrete components *)

Definition conf_c : conf :=
  mkConf None "X" None None (Some [("farnell", "123"); ("rs", "9")])%string.

Definition dual_unit : pyval := PList [PList [PList [pin_a]]].
Definition dual_pins : pyval := PList [dual_unit; dual_unit].
Definition conf_b : conf := mkConf None "DUAL" None None None.

Definition two_sided : unit := ([[P "A" 1 "in"]], [[P "B" 2 "out"; P "C" 3 "oc"]]).

Lemma geometry_grid_aligned_witness :
  geometry scenario_a 1 = Ok (200, 300, 100) /\ (200 / 2 + 100) mod 100 = 0.
Proof.
  split; [reflexivity|].
  apply (geometry_grid_aligned scenario_a 1 200 300 100). reflexivity.
Defined.

Lemma geometry_height_odd_witness :
  geometry scenario_a 1 = Ok (200, 300, 100) /\
  300 mod 100 = 0 /\ Z.odd (300 / 100) = true.
Proof.
  split; [reflexivity|].
  exact (proj2 (geometry_height_odd [[P "A" 1 "in"; P "B" 2 "in"]] [] 1 200 300 100
                  ltac:(reflexivity))).
Defined.

Lemma geometry_width_round100_witness :
  geometry two_sided 1 = Ok (200, 300, 100) /\
  exists a b base w1,
    side_max name_len (fst two_sided) = Ok a /\ side_max name_len (snd two_sided) = Ok b /\
    base mod 100 = 0 /\
    (Z.max a b + 1) * 50 <= base < (Z.max a b + 1) * 50 + 100 /\
    w1 = (if nonempty (fst two_sided) && nonempty (snd two_sided) then base * 2 else base) /\
    100 = Z.max 100 (1 * 50) /\
    200 = w1 + (if (w1 / 2 + 100) mod 100 =? 0 then 0 else 100).
Proof.
  split; [reflexivity|].
  exact (geometry_width_round100 [[P "A" 1 "in"]] [[P "B" 2 "out"; P "C" 3 "oc"]]
           1 200 300 100 ltac:(reflexivity)).
Defined.

Lemma fields_indices_witness :
  exists out, fields conf_c [scenario_a] = Ok out /\ List.length out = 6%nat.
Proof.
  eexists. split; [reflexivity|].
  exact (proj1 (fields_indices conf_c [scenario_a] _ ltac:(reflexivity))).
Defined.

Lemma draw_unit_layout_witness :
  exists out, draw_unit two_sided 1 1 = Ok out /\
    exists w h l, geometry two_sided 1 = Ok (w, h, l).
Proof.
  eexists. split; [reflexivity|].
  destruct (draw_unit_layout [[P "A" 1 "in"]] [[P "B" 2 "out"; P "C" 3 "oc"]] 1 1 _
              ltac:(reflexivity)) as (w & h & l & ls & rs & G & _).
  exists w, h, l. exact G.
Defined.



Lemma library_locked_flag_witness :
  exists units, normalise_pins dual_pins = Ok units /\
    library_head conf_b dual_pins =
      Ok [("#" ++ nl ++ "# DUAL" ++ nl ++ "#")%string; "DEF DUAL IC 0 40 Y Y 2 L N"%string].
Proof.
  eexists. split; [reflexivity|].
  exact (proj2 (library_locked_flag conf_b dual_pins _ ltac:(reflexivity))).
Defined.

(** * Further properties of the layout code *)

(** ** When [geometry] and [longest_num] raise *)







(** ** Pin drawing: [KeyError] and render codes *)

Lemma lookup_spec (k : string) (d : list (string * string)) :
  (lookup k d = Err KeyError <-> ~ In k (map fst d)) /\
  (forall e, lookup k d = Err e -> e = KeyError).
Proof.
  induction d as [|[k' v] d IH]; simpl.
  - split; [split; [intros _ H; exact H | intros _; reflexivity]|].
    intros e H. injection H as <-. reflexivity.
  - destruct (String.eqb_spec k k') as [<-|Hne].
    + split; [split; [discriminate | intros H; exfalso; apply H; left; reflexivity]|].
      discriminate.
    + destruct IH as [[I1 I2] I3]. split; [split|exact I3].
      * intros H [E|Hin]; [congruence | exact (I1 H Hin)].
      * intros H. apply I2. intros Hin. apply H. right; exact Hin.
Qed.

Lemma draw_group_err grp x y direction length unit_idx :
  (forall e, draw_group grp x y direction length unit_idx = Err e -> e = KeyError) /\
  ((exists e, draw_group grp x y direction length unit_idx = Err e) <->
   exists p, In p grp /\ ~ In (pin_type p) (map fst pin_types)).
Proof.
  revert y. induction grp as [|p ps IH]; intros y; cbn [draw_group].
  - split; [discriminate|]. split; [intros [e H]; discriminate | intros [p [[] _]]].
  - destruct (lookup (pin_type p) pin_types) as [t|e0] eqn:L;
      destruct (lookup_spec (pin_type p) pin_types) as [[L1 L2] L3];
      rewrite L in L1, L2, L3; rewrite ?bind_ok, ?bind_err.
    + destruct (draw_group ps x (y - 100) direction length unit_idx) as [r|e1] eqn:D;
        destruct (IH (y - 100)) as [A [B1 B2]]; rewrite D in A, B1, B2;
        rewrite ?bind_ok, ?bind_err.
      * split; [discriminate|]. split; [intros [e H]; discriminate|].
        intros [q [[<-|Hq] Hn]].
        -- apply L2 in Hn. discriminate.
        -- destruct (B2 (ex_intro _ q (conj Hq Hn))) as [e H]. discriminate.
      * split; [intros e H; injection H as <-; exact (A e1 eq_refl)|].
        split; [intros _ | intros _; exists e1; reflexivity].
        destruct (B1 (ex_intro _ e1 eq_refl)) as [q [Hq Hn]].
        exists q. split; [right; exact Hq | exact Hn].
    + assert (Ek : e0 = KeyError) by exact (L3 e0 eq_refl). subst e0.
      split; [intros e H; injection H as <-; reflexivity|].
      split; [intros _ | intros _; exists KeyError; reflexivity].
      exists p. split; [left; reflexivity | exact (L1 eq_refl)].
Qed.

(** [draw_pins] (lines 174-185) raises only [KeyError], and it raises
    exactly when some pin of some group has a type missing from the
    [pin_types] table. *)
Theorem draw_pins_key_error (gs : side) x y direction length unit_idx :
  (forall e, draw_pins gs x y direction length unit_idx = Err e -> e = KeyError) /\
  ((exists e, draw_pins gs x y direction length unit_idx = Err e) <->
   exists grp p, In grp gs /\ In p grp /\ ~ In (pin_type p) (map fst pin_types)).
Proof.
  revert y. induction gs as [|grp gs IH]; intros y; cbn [draw_pins].
  - split; [discriminate|]. split; [intros [e H]; discriminate | intros (g & p & [] & _)].
  - destruct (draw_group grp x y direction length unit_idx) as [r|e0] eqn:D;
      destruct (draw_group_err grp x y direction length unit_idx) as [A [B1 B2]];
      rewrite D in A, B1, B2; rewrite ?bind_ok, ?bind_err.
    + destruct (draw_pins gs x (snd r - 100) direction length unit_idx) as [m|e1] eqn:E;
        destruct (IH (snd r - 100)) as [C [D1 D2]]; rewrite E in C, D1, D2;
        rewrite ?bind_ok, ?bind_err.
      * split; [discriminate|]. split; [intros [e H]; discriminate|].
        intros (g & p & [<-|Hg] & Hp & Hn).
        -- destruct (B2 (ex_intro _ p (conj Hp Hn))) as [e H]. discriminate.
        -- destruct (D2 (ex_intro _ g (ex_intro _ p (conj Hg (conj Hp Hn))))) as [e H].
           discriminate.
      * split; [intros e H; injection H as <-; exact (C e1 eq_refl)|].
        split; [intros _ | intros _; exists e1; reflexivity].
        destruct (D1 (ex_intro _ e1 eq_refl)) as (g & p & Hg & Hp & Hn).
        exists g, p. split; [right; exact Hg | tauto].
    + split; [intros e H; injection H as <-; exact (A e0 eq_refl)|].
      split; [intros _ | intros _; exists e0; reflexivity].
      destruct (B1 (ex_intro _ e0 eq_refl)) as (p & Hp & Hn).
      exists grp, p. split; [left; reflexivity | tauto].
Qed.

Lemma draw_group_same_render (grp1 grp2 : group) x y direction length unit_idx :
  Forall2 (fun p q => pin_name p = pin_name q /\ pin_num p = pin_num q /\
             lookup (pin_type p) pin_types = lookup (pin_type q) pin_types) grp1 grp2 ->
  draw_group grp1 x y direction length unit_idx =
  draw_group grp2 x y direction length unit_idx.
Proof.
  intros H. revert y. induction H as [|p q ps qs [N1 [N2 T]] _ IH]; intros y;
    cbn [draw_group]; [reflexivity|].
  rewrite T, N1, N2, IH. reflexivity.
Qed.

(** [draw_pins] only sees a pin's type through its one-letter code in
    [pin_types]: two sides whose pins agree in name and number and whose
    types share a code (such as ["oc"] and ["od"], or ["oe"] and ["os"])
    are drawn identically, errors included. *)
Theorem draw_pins_render_codes (gs1 gs2 : side) x y direction length unit_idx :
  Forall2 (Forall2 (fun p q => pin_name p = pin_name q /\ pin_num p = pin_num q /\
             lookup (pin_type p) pin_types = lookup (pin_type q) pin_types)) gs1 gs2 ->
  draw_pins gs1 x y direction length unit_idx =
  draw_pins gs2 x y direction length unit_idx.
Proof.
  intros H. revert y. induction H as [|g1 g2 gs1 gs2 Hg _ IH]; intros y;
    cbn [draw_pins]; [reflexivity|].
  rewrite (draw_group_same_render g1 g2 x y direction length unit_idx Hg).
  destruct (draw_group g2 x y direction length unit_idx) as [r|e];
    rewrite ?bind_ok, ?bind_err; [rewrite IH|]; reflexivity.
Qed.

(** ** The block structure of [draw] *)

Lemma draw_units_blocks (units : list unit) (i : nat) (multi : bool) (n : Z)
    (out : list string) :
  draw_units units i multi n = Ok out ->
  exists blocks, out = List.concat blocks /\
    List.length blocks = List.length units /\
    forall k u, nth_error units k = Some u ->
      exists b, nth_error blocks k = Some b /\
        draw_unit u n (if multi then Z.of_nat (i + k) + 1 else Z.of_nat (i + k)) = Ok b.
Proof.
  revert i out. induction units as [|u us IH]; intros i out; cbn [draw_units].
  - intros H. apply res_ok_inj in H. subst out. exists []. split; [reflexivity|].
    split; [reflexivity|]. intros [|k] u H; discriminate.
  - cbv zeta.
    destruct (draw_unit u n (if multi then Z.of_nat i + 1 else Z.of_nat i)) as [a|e] eqn:D;
      rewrite ?bind_ok, ?bind_err; [|discriminate].
    destruct (draw_units us (S i) multi n) as [b|e] eqn:E;
      rewrite ?bind_ok, ?bind_err; [|discriminate].
    intros H. apply res_ok_inj in H. subst out.
    destruct (IH (S i) b E) as (bs & -> & Hl & Hn).
    exists (a :: bs). split; [reflexivity|]. split; [simpl; lia|].
    intros [|k] u' Hk; simpl in Hk.
    + injection Hk as <-. exists a. split; [reflexivity|].
      rewrite Nat.add_0_r. exact D.
    + destruct (Hn k u' Hk) as (b' & Hb & Hd). exists b'. split; [exact Hb|].
      replace (i + S k)%nat with (S i + k)%nat by lia. exact Hd.
Qed.

(** The output of [draw] is ["DRAW"], then one block per unit in input
    order, then ["ENDDRAW"].  Block [k] is what the loop body makes of unit
    [k] with the one [longest_num] shared by all units, and with unit index
    [k + 1] when there are several units and [0] when there is one. *)
Theorem draw_blocks (units : list unit) (out : list string) :
  draw units = Ok out ->
  exists n blocks,
    longest_num units = Ok n /\
    out = ["DRAW"%string] ++ List.concat blocks ++ ["ENDDRAW"%string] /\
    List.length blocks = List.length units /\
    forall k u, nth_error units k = Some u ->
      exists b, nth_error blocks k = Some b /\
        draw_unit u n (if Nat.ltb 1 (List.length units)
                       then Z.of_nat k + 1 else Z.of_nat k) = Ok b.
Proof.
  unfold draw. intros H.
  destruct (longest_num units) as [n|e] eqn:L; rewrite ?bind_ok, ?bind_err in H;
    [|discriminate].
  destruct (draw_units units 0 (Nat.ltb 1 (List.length units)) n) as [body|e] eqn:D;
    rewrite ?bind_ok, ?bind_err in H; [|discriminate].
  apply res_ok_inj in H. subst out.
  destruct (draw_units_blocks _ _ _ _ _ D) as (bs & -> & Hl & Hn).
  exists n, bs. split; [reflexivity|]. split; [reflexivity|]. split; [exact Hl|].
  exact Hn.
Qed.

(** ** Every pin of a drawn unit sits on the 0.1 inch grid *)

Lemma geometry_height_mod (lp rp : side) (n w h l : Z) :
  geometry (lp, rp) n = Ok (w, h, l) -> h mod 200 = 100.
Proof.
  intros H. geometry_inv H. cbv zeta.
  set (rows := Z.max _ _).
  replace (100 * rows / 100) with rows by (rewrite Z.mul_comm, Z.div_mul; lia).
  destruct (Z.eqb_spec (rows mod 2) 0) as [E|E]; Z.div_mod_to_equations; lia.
Qed.

Lemma draw_unit_placed (lp rp : side) (n unit_idx : Z) (out : list string) :
  draw_unit (lp, rp) n unit_idx = Ok out ->
  exists w h l ls rs,
    geometry (lp, rp) n = Ok (w, h, l) /\
    out = box_line w h unit_idx :: ls ++ rs /\
    placed lp (- (w / 2) - l) (h / 2 - 50) "R" l unit_idx ls /\
    placed rp (w / 2 + l) (h / 2 - 50) "L" l unit_idx rs.
Proof.
  intros H. unfold draw_unit, bind in H.
  destruct (geometry (lp, rp) n) as [[[w h] l]|e] eqn:G; [|discriminate H].
  cbv beta iota zeta in H.
  destruct (if nonempty lp then draw_pins lp ((- w) / 2 - l) (h / 2 - 50) "R" l unit_idx
            else Ok []) as [ls|e] eqn:EL; [|discriminate H].
  destruct (if nonempty rp then draw_pins rp (- ((- w) / 2 - l)) (h / 2 - 50) "L" l unit_idx
            else Ok []) as [rs|e] eqn:ER; [|discriminate H].
  apply res_ok_inj in H. subst out.
  pose proof (geometry_width_even _ _ _ _ _ G) as Hev.
  assert (Hx : (- w) / 2 = - (w / 2)) by (Z.div_mod_to_equations; lia).
  rewrite Hx in EL, ER.
  replace (- (- (w / 2) - l)) with (w / 2 + l) in ER by lia.
  exists w, h, l, ls, rs. split; [reflexivity|]. split; [reflexivity|].
  split; apply draw_side_placed; assumption.
Qed.

(** Every pin of every group of either side of a drawn unit appears in the
    unit's output as an ["X"] line whose coordinates are both multiples of
    100: the grid alignment that the width nudge and the odd height of
    [geometry] are there to obtain. *)
Theorem draw_unit_pins_on_grid (lp rp : side) (n unit_idx : Z) (out : list string) :
  draw_unit (lp, rp) n unit_idx = Ok out ->
  forall g j grp p,
    (nth_error lp g = Some grp \/ nth_error rp g = Some grp) ->
    nth_error grp j = Some p ->
    exists x y length direction t,
      In (pin_line (pin_name p) (pin_num p) x y length direction unit_idx t) out /\
      x mod 100 = 0 /\ y mod 100 = 0.
Proof.
  intros H g j grp p Hg Hj.
  destruct (draw_unit_placed _ _ _ _ _ H)
    as (w & h & l & ls & rs & G & -> & [_ PL] & [_ PR]).
  destruct (geometry_width lp rp n w h l G)
    as (a & b & base & w1 & _ & _ & _ & _ & _ & _ & _ & Hal & _).
  pose proof (geometry_height_mod _ _ _ _ _ _ G) as Hh.
  assert (Hy : forall m, (h / 2 - 50 - 100 * m) mod 100 = 0)
    by (intros m; Z.div_mod_to_equations; lia).
  destruct Hg as [Hg|Hg].
  - pose proof (PL g j grp p Hg Hj) as Hp. cbv zeta in Hp. destruct Hp as [t [_ Hn]].
    eexists _, _, l, "R"%string, t. split.
    + right. apply in_or_app. left. eapply nth_error_In. exact Hn.
    + split; [Z.div_mod_to_equations; lia | apply Hy].
  - pose proof (PR g j grp p Hg Hj) as Hp. cbv zeta in Hp. destruct Hp as [t [_ Hn]].
    eexists _, _, l, "L"%string, t. split.
    + right. apply in_or_app. right. eapply nth_error_In. exact Hn.
    + split; [exact Hal | apply Hy].
Qed.

(** ** Where [fields] puts the field lines *)

Lemma py_max_spec (xs : list Z) (m : Z) :
  py_max xs = Ok m -> In m xs /\ forall x, In x xs -> x <= m.
Proof.
  destruct xs as [|x xs]; [discriminate|]. simpl. intros H. injection H as <-.
  destruct (fold_max_ge xs x) as [G1 G2]. rewrite Forall_forall in G2. split.
  - destruct (fold_max_in xs x) as [E|E]; [rewrite E; left; reflexivity | right; exact E].
  - intros y [<-|Hy]; [exact G1 | exact (G2 y Hy)].
Qed.

(** [fields] (lines 135-171) sizes the symbol by the widest and the
    tallest unit ([W] and [H], each reached by some unit's [geometry] with
    the shared [longest_num]).  Every field line sits at
    [x = -W // 2]; field 0 (visible) at [y = H // 2 + 50], above the box;
    field [i >= 1] at [y = -(H // 2 + 50) - 100 * (i - 1)], one row apart
    below the box, field 1 visible and all the later ones invisible. *)
Theorem fields_layout (c : conf) (units : list unit) (out : list string) :
  fields c units = Ok out ->
  exists n geoms W H,
    longest_num units = Ok n /\
    Forall2 (fun u g => geometry u n = Ok g) units geoms /\
    (forall g, In g geoms -> fst3 g <= W /\ snd3 g <= H) /\
    In W (map fst3 geoms) /\ In H (map snd3 geoms) /\
    forall i line, nth_error out i = Some line ->
      exists rest, line =
        ("F" ++ Z_to_string (Z.of_nat i) ++ " " ++ dq ++ nth i (field_texts c) ""
         ++ dq ++ " " ++ Z_to_string ((- W) / 2) ++ " "
         ++ Z_to_string (if Nat.eqb i 0 then H / 2 + 50
                         else - (H / 2 + 50) - 100 * (Z.of_nat i - 1))
         ++ " 50 H " ++ (if Nat.ltb i 2 then "V" else "I") ++ " L CNN" ++ rest)%string.
Proof.
  intros Hf. unfold fields in Hf.
  destruct (longest_num units) as [n|e] eqn:L; rewrite ?bind_ok, ?bind_err in Hf;
    [|discriminate].
  destruct (mapM (fun u => geometry u n) units) as [geoms|e] eqn:G;
    rewrite ?bind_ok, ?bind_err in Hf; [|discriminate].
  destruct (py_max (map fst3 geoms)) as [W|e] eqn:PW; rewrite ?bind_ok, ?bind_err in Hf;
    [|discriminate].
  destruct (py_max (map snd3 geoms)) as [H|e] eqn:PH; rewrite ?bind_ok, ?bind_err in Hf;
    [|discriminate].
  cbv zeta in Hf. apply res_ok_inj in Hf. subst out.
  destruct (py_max_spec _ _ PW) as [W1 W2]. destruct (py_max_spec _ _ PH) as [H1 H2].
  exists n, geoms, W, H. split; [reflexivity|]. split; [exact (mapM_ok _ _ _ G)|].
  split; [intros g Hg; split; [apply W2 | apply H2]; apply in_map; exact Hg|].
  split; [exact W1|]. split; [exact H1|].
  intros i line Hi. unfold field_texts.
  destruct i as [|[|[|[|i]]]]; cbn [nth_error app] in Hi.
  - injection Hi as <-. exists ""%string. reflexivity.
  - injection Hi as <-.
    replace (- (H / 2 + 50) - 100 * (Z.of_nat 1 - 1)) with (- (H / 2 + 50)) by lia.
    exists ""%string. reflexivity.
  - replace (- (H / 2 + 50) - 100 * (Z.of_nat 2 - 1)) with (- (H / 2 + 50) - 100) by lia.
    destruct (footprint c); injection Hi as <-; exists ""%string; reflexivity.
  - replace (- (H / 2 + 50) - 100 * (Z.of_nat 3 - 1)) with (- (H / 2 + 50) - 200) by lia.
    destruct (datasheet c); injection Hi as <-; exists ""%string; reflexivity.
  - rewrite ordercode_lines_nth in Hi.
    destruct (nth_error (get (ordercodes c) []) i) as [[s cd]|] eqn:E; [|discriminate].
    cbn [option_map fst snd] in Hi. injection Hi as <-.
    cbn [nth app].
    rewrite (nth_error_nth (map snd (get (ordercodes c) [])) i ""%string
               (map_nth_error snd i _ E)).
    cbn [snd]. unfold ordercode_line.
    replace (Z.of_nat i + 4) with (Z.of_nat (S (S (S (S i))))) by lia.
    replace (- (H / 2 + 50) - (300 + Z.of_nat i * 100))
      with (- (H / 2 + 50) - 100 * (Z.of_nat (S (S (S (S i)))) - 1)) by lia.
    exists (" " ++ dq ++ s ++ dq)%string. reflexivity.
Qed.

(** ** Shapes accepted by [normalise_pins] *)

(** A single right-only unit [[[[None]], right]] whose first right pin is
    named by a string is read as one unit with an empty left side; the
    rest of the [None] marker is never looked at. *)
Theorem normalise_single_right_only (xs ys : list pyval) (s : string)
    (rest ps gs : list pyval) :
  let right := PList (PList (PList (PStr s :: rest) :: ps) :: gs) in
  normalise_pins (PList [PList (PList (PNone :: xs) :: ys); right]) =
    Ok [(PList [], right)].
Proof. reflexivity. Qed.

(** A single two-sided unit [[left, right]] whose first left pin is named
    by a string is read as that one unit, and its right side is passed on
    without any check of its shape. *)
Theorem normalise_single_two_sided (s : string) (rest ps gs : list pyval)
    (right : pyval) :
  let left := PList (PList (PList (PStr s :: rest) :: ps) :: gs) in
  normalise_pins (PList [left; right]) = Ok [(left, right)].
Proof. reflexivity. Qed.

(** A list of units whose first unit starts with a left side of groups of
    pins (four levels of lists) is not wrapped: every element is a unit,
    normalised in order by the loop body. *)
Theorem normalise_multi_units (p g s t us : list pyval) :
  let u0 := PList (PList (PList (PList p :: g) :: s) :: t) in
  normalise_pins (PList (u0 :: us)) = mapM normalise_unit (u0 :: us).
Proof. reflexivity. Qed.

(** ** [documentation] *)

Lemma doc_entry_err (elm : component) (e : pyerr) :
  doc_entry elm = Err e ->
  e = KeyError /\ (elm_name elm = None \/ elm_description elm = None).
Proof.
  destruct elm as [[n|] [d|] ds]; simpl; try discriminate;
    intros H; injection H as <-; split; auto.
Qed.

(** [documentation] (lines 242-255) raises only [KeyError], and exactly
    when some component has no ["name"] or no ["description"]; a missing
    ["datasheet"] is never an error. *)
Theorem documentation_errors (cfg : config) :
  (forall e, documentation cfg = Err e -> e = KeyError) /\
  ((exists e, documentation cfg = Err e) <->
   exists elm, In elm (as_list cfg) /\
     (elm_name elm = None \/ elm_description elm = None)).
Proof.
  unfold documentation. split; [|split].
  - intros e H. apply bind_err_inv in H as [H|[ls [_ H]]]; [|discriminate].
    destruct (mapM_err _ _ _ H) as [elm [_ He]]. exact (proj1 (doc_entry_err _ _ He)).
  - intros [e H]. apply bind_err_inv in H as [H|[ls [_ H]]]; [|discriminate].
    destruct (mapM_err _ _ _ H) as [elm [Hin He]].
    exists elm. split; [exact Hin | exact (proj2 (doc_entry_err _ _ He))].
  - intros [elm [Hin Hnone]]. destruct (mapM doc_entry (as_list cfg)) as [ls|e] eqn:M.
    + apply mapM_ok in M. destruct (Forall2_in_l _ _ _ _ M Hin) as [b [_ Hb]].
      exfalso. destruct elm as [[n|] [d|] ds]; simpl in Hb, Hnone;
        destruct Hnone as [Hn|Hn]; discriminate.
    + exists e. rewrite bind_err. reflexivity.
Qed.

Lemma doc_lines (comps : list component) (ls : list (list string)) :
  mapM doc_entry comps = Ok ls ->
  (forall elm, In elm comps ->
     exists n d, elm_name elm = Some n /\ elm_description elm = Some d) /\
  filter (String.prefix "$CMP ") (List.concat ls) =
    map (fun elm => ("$CMP " ++ get (elm_name elm) "")%string) comps /\
  List.length (filter (String.eqb "$ENDCMP") (List.concat ls)) = List.length comps /\
  List.length (filter (String.prefix "F ") (List.concat ls)) =
    List.length (filter (fun elm => match elm_datasheet elm with
                                    | Some _ => true | None => false end) comps).
Proof.
  revert ls. induction comps as [|[[n|] [d|] ds] comps IH]; intros ls H; cbn [mapM] in H;
    try discriminate H.
  - injection H as <-. split; [intros elm []|]. split; [reflexivity | split; reflexivity].
  - destruct (mapM doc_entry comps) as [ls'|e] eqn:M; [|discriminate H].
    simpl in H. injection H as <-.
    destruct (IH ls' eq_refl) as [D [A [B C]]].
    split.
    { intros elm [<-|Hin]; [exists n, d; split; reflexivity | exact (D elm Hin)]. }
    cbn [List.concat]. rewrite !filter_app, !length_app, A, B, C.
    assert (P0 : forall t, String.prefix "" t = true) by (intros [|ch t]; reflexivity).
    destruct ds as [ds|]; simpl; rewrite ?P0; (split; [|split]); reflexivity.
Qed.

(** A successful [documentation] is the header line followed by one block
    per component, joined by newlines: every component has a name and a
    description, the ["$CMP name"] lines name the components in input
    order, there is one ["$ENDCMP"] per component, and one ["F"] line per
    component that has a datasheet. *)
Theorem documentation_blocks (cfg : config) (s : string) :
  documentation cfg = Ok s ->
  exists lines,
    s = String.concat nl ("EESchema-DOCLIB  Version 2.0"%string :: lines) /\
    (forall elm, In elm (as_list cfg) ->
       exists n d, elm_name elm = Some n /\ elm_description elm = Some d) /\
    filter (String.prefix "$CMP ") lines =
      map (fun elm => ("$CMP " ++ get (elm_name elm) "")%string) (as_list cfg) /\
    List.length (filter (String.eqb "$ENDCMP") lines) = List.length (as_list cfg) /\
    List.length (filter (String.prefix "F ") lines) =
      List.length (filter (fun elm => match elm_datasheet elm with
                                      | Some _ => true | None => false end) (as_list cfg)).
Proof.
  unfold documentation. intros H.
  destruct (mapM doc_entry (as_list cfg)) as [ls|e] eqn:M;
    rewrite ?bind_ok, ?bind_err in H; [|discriminate].
  apply res_ok_inj in H. subst s.
  exists (List.concat ls). split; [reflexivity|]. exact (doc_lines _ _ M).
Qed.

(** ** [fields] and [draw] on the same units *)

Lemma draw_group_known grp x y direction length unit_idx :
  (forall p, In p grp -> In (pin_type p) (map fst pin_types)) ->
  exists r, draw_group grp x y direction length unit_idx = Ok r.
Proof.
  revert y. induction grp as [|q grp IH]; intros y H; cbn [draw_group];
    [eexists; reflexivity|].
  destruct (lookup (pin_type q) pin_types) as [t|e] eqn:L.
  - rewrite bind_ok. destruct (IH (y - 100)) as [r Hr];
      [intros p Hp; apply H; right; exact Hp|].
    rewrite Hr, bind_ok. eexists. reflexivity.
  - exfalso. destruct (lookup_spec (pin_type q) pin_types) as [[L1 _] L3].
    rewrite L in L1, L3. specialize (L3 e eq_refl). subst e.
    exact (L1 eq_refl (H q (or_introl eq_refl))).
Qed.

Lemma draw_pins_known gs x y direction length unit_idx :
  (forall grp p, In grp gs -> In p grp -> In (pin_type p) (map fst pin_types)) ->
  exists out, draw_pins gs x y direction length unit_idx = Ok out.
Proof.
  revert y. induction gs as [|grp gs IH]; intros y H; cbn [draw_pins];
    [eexists; reflexivity|].
  destruct (draw_group_known grp x y direction length unit_idx) as [r Hr];
    [intros p Hp; apply (H grp p); [left; reflexivity | exact Hp]|].
  rewrite Hr, bind_ok.
  destruct (IH (snd r - 100)) as [m Hm];
    [intros g p Hg Hp; apply (H g p); [right; exact Hg | exact Hp]|].
  rewrite Hm, bind_ok. eexists. reflexivity.
Qed.

Lemma draw_unit_known (lp rp : side) (n unit_idx : Z) (g : Z * Z * Z) :
  geometry (lp, rp) n = Ok g ->
  (forall grp p, (In grp lp \/ In grp rp) -> In p grp ->
     In (pin_type p) (map fst pin_types)) ->
  exists out, draw_unit (lp, rp) n unit_idx = Ok out.
Proof.
  intros G Hk. unfold draw_unit. rewrite G, bind_ok. destruct g as [[w h] l].
  cbv beta iota zeta.
  destruct (nonempty lp), (nonempty rp);
    repeat match goal with
    | |- context [draw_pins ?gs ?x ?y ?d ?len ?i] =>
        let ls := fresh "ls" in let Hl := fresh "Hl" in
        destruct (draw_pins_known gs x y d len i) as [ls Hl];
        [intros grp p Hg Hp; apply (Hk grp p); [tauto | exact Hp] | rewrite Hl]
    end; rewrite ?bind_ok; eexists; reflexivity.
Qed.

Lemma draw_units_known (units : list unit) (i : nat) (multi : bool) (n : Z) :
  (forall u, In u units -> (exists g, geometry u n = Ok g) /\
     forall grp p, (In grp (fst u) \/ In grp (snd u)) -> In p grp ->
       In (pin_type p) (map fst pin_types)) ->
  exists out, draw_units units i multi n = Ok out.
Proof.
  revert i. induction units as [|u us IH]; intros i H; cbn [draw_units];
    [eexists; reflexivity|].
  cbv zeta. destruct (H u (or_introl eq_refl)) as [[g Hg] Hk].
  destruct u as [lp rp].
  destruct (draw_unit_known lp rp n (if multi then Z.of_nat i + 1 else Z.of_nat i) g Hg Hk)
    as [a Ha].
  rewrite Ha, bind_ok.
  destruct (IH (S i)) as [b Hb]; [intros u' Hu'; apply H; right; exact Hu'|].
  rewrite Hb, bind_ok. eexists. reflexivity.
Qed.

(** [library] calls [fields] and then [draw] on the same units
    (lines 234-235).  Whenever [draw] succeeds, [fields] succeeds too,
    whatever the component's other keys; and when [fields] succeeds,
    [draw] fails only on a pin type missing from [pin_types]. *)
Theorem fields_draw_agree (c : conf) (units : list unit) :
  (forall out, draw units = Ok out -> exists fl, fields c units = Ok fl) /\
  (forall fl, fields c units = Ok fl ->
     (forall u grp p, In u units -> (In grp (fst u) \/ In grp (snd u)) -> In p grp ->
        In (pin_type p) (map fst pin_types)) ->
     exists out, draw units = Ok out).
Proof.
  split.
  - intros out H. unfold draw in H.
    destruct (longest_num units) as [n|e] eqn:L; rewrite ?bind_ok, ?bind_err in H;
      [|discriminate].
    destruct (draw_units units 0 (Nat.ltb 1 (List.length units)) n) as [body|e] eqn:D;
      rewrite ?bind_ok, ?bind_err in H; [|discriminate].
    destruct (draw_units_blocks _ _ _ _ _ D) as (bs & _ & _ & Hn).
    assert (Hg : forall u, In u units -> exists g, geometry u n = Ok g).
    { intros u Hu. destruct (In_nth_error _ _ Hu) as [k Hk].
      destruct (Hn k u Hk) as [b [_ Hb]]. revert Hb. unfold draw_unit.
      destruct (geometry u n) as [g|e]; [intros _; exists g; reflexivity|].
      rewrite bind_err. discriminate. }
    destruct (mapM_all_ok (fun u => geometry u n) units Hg) as [geoms [Hgs Hlen]].
    unfold fields. rewrite L, bind_ok, Hgs, bind_ok.
    destruct geoms as [|g0 gs].
    + destruct units; [discriminate L | discriminate Hlen].
    + eexists. reflexivity.
  - intros fl Hf Hk. unfold fields in Hf.
    destruct (longest_num units) as [n|e] eqn:L; rewrite ?bind_ok, ?bind_err in Hf;
      [|discriminate].
    destruct (mapM (fun u => geometry u n) units) as [geoms|e] eqn:G;
      rewrite ?bind_ok, ?bind_err in Hf; [|discriminate].
    apply mapM_ok in G.
    unfold draw. rewrite L, bind_ok.
    destruct (draw_units_known units 0 (Nat.ltb 1 (List.length units)) n) as [body Hb].
    { intros u Hu. split.
      - destruct (Forall2_in_l _ _ _ _ G Hu) as [g [_ Hg]]. exists g. exact Hg.
      - intros grp p Hg Hp. exact (Hk u grp p Hu Hg Hp). }
    rewrite Hb, bind_ok. eexists. reflexivity.
Qed.

(** ** Witnesses of the further properties *)


Definition doc_cfg : config :=
  Several [mkComponent (Some "X") (Some "first part") None;
           mkComponent (Some "DUAL") (Some "second part") (Some "dual.pdf")]%string.

(** A component with a description but no name. *)
Definition nameless : component := mkComponent None (Some "a part"%string) None.



Lemma draw_pins_key_error_witness :
  draw_pins [[P "A" 1 "analog"]] 0 0 "R" 100 0 = Err KeyError /\
  exists grp p, In grp [[P "A" 1 "analog"]] /\ In p grp /\
    ~ In (pin_type p) (map fst pin_types).
Proof.
  split; [reflexivity|].
  apply (proj1 (proj2 (draw_pins_key_error [[P "A" 1 "analog"]] 0 0 "R" 100 0))).
  exists KeyError. reflexivity.
Defined.

Lemma draw_pins_render_codes_witness :
  draw_pins [[P "A" 1 "oc"; P "B" 2 "oe"]] 0 0 "R" 100 0 =
  draw_pins [[P "A" 1 "od"; P "B" 2 "os"]] 0 0 "R" 100 0.
Proof.
  apply draw_pins_render_codes. repeat constructor.
Defined.

Lemma draw_blocks_witness :
  exists out, draw [scenario_a; two_sided] = Ok out /\
    exists n (blocks : list (list string)), longest_num [scenario_a; two_sided] = Ok n /\
      List.length blocks = 2%nat.
Proof.
  eexists. split; [reflexivity|].
  destruct (draw_blocks [scenario_a; two_sided] _ ltac:(reflexivity))
    as (n & bs & Hn & _ & Hl & _).
  exists n, bs. split; [exact Hn | exact Hl].
Defined.

Lemma draw_unit_pins_on_grid_witness :
  exists out, draw_unit two_sided 1 1 = Ok out /\
    exists x y length direction t,
      In (pin_line (AStr "C") (AInt 3) x y length direction 1 t) out /\
      x mod 100 = 0 /\ y mod 100 = 0.
Proof.
  eexists. split; [reflexivity|].
  exact (draw_unit_pins_on_grid [[P "A" 1 "in"]] [[P "B" 2 "out"; P "C" 3 "oc"]] 1 1 _
           ltac:(reflexivity) 0 1 [P "B" 2 "out"; P "C" 3 "oc"] (P "C" 3 "oc")
           (or_intror eq_refl) eq_refl).
Defined.

Lemma fields_layout_witness :
  exists out, fields conf_c [scenario_a; two_sided] = Ok out /\
    exists n geoms W H, longest_num [scenario_a; two_sided] = Ok n /\
      In W (map fst3 geoms) /\ In H (map snd3 geoms).
Proof.
  eexists. split; [reflexivity|].
  destruct (fields_layout conf_c [scenario_a; two_sided] _ ltac:(reflexivity))
    as (n & geoms & W & H & Hn & _ & _ & HW & HH & _).
  exists n, geoms, W, H. split; [exact Hn|]. split; [exact HW | exact HH].
Defined.

Lemma documentation_errors_witness :
  documentation (One nameless) = Err KeyError /\
  exists elm, In elm (as_list (One nameless)) /\
    (elm_name elm = None \/ elm_description elm = None).
Proof.
  split; [reflexivity|].
  apply (proj1 (proj2 (documentation_errors (One nameless)))).
  exists KeyError. reflexivity.
Defined.

Lemma documentation_blocks_witness :
  exists s, documentation doc_cfg = Ok s /\
    exists lines, List.length (filter (String.eqb "$ENDCMP") lines) = 2%nat.
Proof.
  eexists. split; [reflexivity|].
  destruct (documentation_blocks doc_cfg _ ltac:(reflexivity)) as (lines & _ & _ & _ & Hc & _).
  exists lines. exact Hc.
Defined.

Lemma fields_draw_agree_witness :
  exists fl, fields conf_c [two_sided] = Ok fl.
Proof.
  exact (proj1 (fields_draw_agree conf_c [two_sided]) _ ltac:(reflexivity)).
Defined.
